(** * PostPage: the post form, its preview, and the OG image capture

    A shallow embedding of [src/PostPage.jsx].  The component owns four
    [useState] cells, renders a form, a preview region and a [<Helmet>]
    block, and has one asynchronous handler, [handleGenerateOgImage], that
    hands the preview region to [toPng] and stores the data URL it resolves
    with.  The embedding keeps the component's names and models

    - the four state cells as a record,
    - the JSX returned by the component as a first-order tree,
    - the browser around it (document head, console, promises in flight)
      as a [world] that the handlers transform,
    - the event loop as a step function over user and promise events. *)

From Stdlib Require Import Ascii.
From Stdlib Require String.
From stdpp Require Import base option list strings gmap.

(** ** The fragment of JavaScript the component relies on *)

Module JS.

(** [ToBoolean] on a string: only the empty string is falsy. *)
Definition truthy (s : string) : bool :=
  match s with
  | EmptyString => false
  | String _ _ => true
  end.

(** How a promise ends: fulfilled with a value or rejected with a reason
    (the reason is kept as its message). *)
Inductive settled (A : Type) : Type :=
| Fulfilled (value : A)
| Rejected (reason : string).
Global Arguments Fulfilled {A} value.
Global Arguments Rejected {A} reason.

End JS.

(** ** JSX trees *)

(** The three controlled inputs of the form. *)
Inductive field : Type := Title | Content | ImageUrl.

(** Values a JSX attribute takes in this component. *)
Inductive attr : Type :=
| AStr (v : string)              (* a string literal or {expr} of type string *)
| AOnChange (f : field)          (* (e) => setF(e.target.value) *)
| AOnClickGenerate               (* {handleGenerateOgImage} *)
| ARefPost.                      (* ref={postRef} *)

#[warnings="-register-all"]
Inductive jsx : Type :=
| JText (s : string)
| JElem (tag : string) (attrs : list (string * attr)) (children : list jsx).

(** [a && e] where [a] is a string: the string itself when it is falsy,
    otherwise the element. *)
Definition js_and (a : string) (e : jsx) : jsx :=
  if JS.truthy a then e else JText a.

Definition is_elem (t : jsx) : bool :=
  match t with
  | JText _ => false
  | JElem _ _ _ => true
  end.

Definition tag_of (t : jsx) : option string :=
  match t with
  | JText _ => None
  | JElem tag _ _ => Some tag
  end.

Fixpoint get_attr (name : string) (attrs : list (string * attr)) : option attr :=
  match attrs with
  | [] => None
  | (k, v) :: rest => if String.eqb k name then Some v else get_attr name rest
  end.

Definition attr_of (name : string) (t : jsx) : option attr :=
  match t with
  | JText _ => None
  | JElem _ attrs _ => get_attr name attrs
  end.

(** Number of elements with tag [tag] in a tree, the root included. *)
Fixpoint count_tag (tag : string) (t : jsx) : nat :=
  match t with
  | JText _ => 0
  | JElem tg _ cs =>
      (if String.eqb tg tag then 1 else 0)
      + (fix go (l : list jsx) : nat :=
           match l with
           | [] => 0
           | c :: l' => count_tag tag c + go l'
           end) cs
  end.

Definition contains_tag (tag : string) (t : jsx) : bool :=
  negb (Nat.eqb (count_tag tag t) 0).

(** ** The component *)

Module PostPage.

(** The four [useState] cells. *)
Record state : Type := mkState {
  title : string;
  content : string;
  imageUrl : string;
  ogImageUrl : string
}.

(** [useState("")] four times. *)
Definition useState_init : state :=
  {| title := ""; content := ""; imageUrl := ""; ogImageUrl := "" |}.

(** The [<Helmet>] block. *)
Definition helmet (s : state) : jsx :=
  JElem "Helmet" []
    [ js_and (ogImageUrl s)
        (JElem "meta" [("property", AStr "og:image");
                       ("content", AStr (ogImageUrl s))] []) ].

Definition post_form (s : state) : jsx :=
  JElem "div" [("className", AStr "post-form")]
    [ JElem "input" [("type", AStr "text");
                     ("placeholder", AStr "Title");
                     ("value", AStr (title s));
                     ("onChange", AOnChange Title)] [];
      JElem "textarea" [("placeholder", AStr "Content");
                        ("value", AStr (content s));
                        ("onChange", AOnChange Content)] [];
      JElem "input" [("type", AStr "text");
                     ("placeholder", AStr "Image URL");
                     ("value", AStr (imageUrl s));
                     ("onChange", AOnChange ImageUrl)] [];
      JElem "button" [("onClick", AOnClickGenerate)]
        [JText "Generate OG Image"] ].

(** The region [postRef] points to. *)
Definition post_preview (s : state) : jsx :=
  JElem "div" [("className", AStr "post-preview"); ("ref", ARefPost)]
    [ JElem "h2" [] [JText (title s)];
      JElem "p" [] [JText (content s)];
      js_and (imageUrl s)
        (JElem "img" [("src", AStr (imageUrl s)); ("alt", AStr "Post")] []) ].

(** What the component returns. *)
Definition render (s : state) : jsx :=
  JElem "HelmetProvider" []
    [ JElem "div" [("className", AStr "post-page")]
        [ helmet s;
          JElem "h1" [("className", AStr "post-heading")]
            [JText "Assignment: Dynamic Post Page with OG Image Generation"];
          post_form s;
          post_preview s ] ].

(** *** The state setters, on the cells alone *)

Definition with_title (v : string) (s : state) : state :=
  {| title := v; content := content s;
     imageUrl := imageUrl s; ogImageUrl := ogImageUrl s |}.

Definition with_content (v : string) (s : state) : state :=
  {| title := title s; content := v;
     imageUrl := imageUrl s; ogImageUrl := ogImageUrl s |}.

Definition with_imageUrl (v : string) (s : state) : state :=
  {| title := title s; content := content s;
     imageUrl := v; ogImageUrl := ogImageUrl s |}.

Definition with_ogImageUrl (v : string) (s : state) : state :=
  {| title := title s; content := content s;
     imageUrl := imageUrl s; ogImageUrl := v |}.

End PostPage.

Import PostPage.

(** ** The browser around the component *)

(** Modelled from the spec: [Helmet] (react-helmet-async) is an external
    collaborator, "a capability that lets the application declare tag-like
    metadata that gets reflected into the document head whenever the
    declaring component is mounted/updated".  The tags a tree declares are
    the element children of its [Helmet] nodes; falsy children (the empty
    string left by [&&]) declare nothing. *)
Fixpoint declared_head (t : jsx) : list jsx :=
  match t with
  | JText _ => []
  | JElem tag _ cs =>
      if String.eqb tag "Helmet" then List.filter is_elem cs
      else (fix go (l : list jsx) : list jsx :=
              match l with
              | [] => []
              | c :: l' => declared_head c ++ go l'
              end) cs
  end.

(** One [console.error(message, err)] call. *)
Record log_entry : Type := mkLog {
  log_message : string;
  log_error : string
}.

Record world : Type := mkWorld {
  hooks : state;               (* the component's state cells *)
  head : list jsx;             (* tags Helmet has been handed for document.head *)
  console : list log_entry;    (* console.error calls, oldest first *)
  pending : gmap nat jsx;      (* toPng promises in flight, with the node each was given *)
  next_promise : nat           (* identity of the next promise created *)
}.

(** Modelled from the spec: [Helmet] is not under [src/]; its contract is
    that the declared entry "is replaced (not appended) whenever
    [generatedImageRef] changes".  A render is committed: the tags Helmet
    manages are replaced by the ones the new tree declares.  [head] is the
    head Helmet is bringing the document to; when the document itself is
    written is the matter of [page] below. *)
Definition commit (w : world) : world :=
  {| hooks := hooks w;
     head := declared_head (render (hooks w));
     console := console w;
     pending := pending w;
     next_promise := next_promise w |}.

(** A state setter called from a handler: the cell is replaced and the
    component re-renders. *)
Definition set_state (f : state -> state) (w : world) : world :=
  commit {| hooks := f (hooks w);
            head := head w;
            console := console w;
            pending := pending w;
            next_promise := next_promise w |}.

Definition setTitle (v : string) : world -> world := set_state (with_title v).
Definition setContent (v : string) : world -> world := set_state (with_content v).
Definition setImageUrl (v : string) : world -> world := set_state (with_imageUrl v).
Definition setOgImageUrl (v : string) : world -> world := set_state (with_ogImageUrl v).

Definition console_error (message err : string) (w : world) : world :=
  {| hooks := hooks w;
     head := head w;
     console := console w ++ [mkLog message err];
     pending := pending w;
     next_promise := next_promise w |}.

(** [postRef.current] while the component is mounted: the preview region as
    currently rendered. *)
Definition postRef_current (w : world) : jsx := post_preview (hooks w).

(** [toPng(node)] returns at once with a new pending promise; the node it
    was given is remembered with the promise. *)
Definition toPng (node : jsx) (w : world) : nat * world :=
  (next_promise w,
   {| hooks := hooks w;
      head := head w;
      console := console w;
      pending := <[next_promise w := node]> (pending w);
      next_promise := S (next_promise w) |}).

(** *** Promise chaining

    A promise that has settled, together with the world its reactions run
    in.  [then_] and [catch_] run the reaction that applies and yield the
    promise they return; the reactions of this component return [undefined]
    and do not throw. *)
Definition chain (A : Type) : Type := JS.settled A * world.

Definition then_ {A : Type} (onFulfilled : A -> world -> world)
    (p : chain A) : chain unit :=
  match p with
  | (JS.Fulfilled v, w) => (JS.Fulfilled tt, onFulfilled v w)
  | (JS.Rejected r, w) => (JS.Rejected r, w)
  end.

Definition catch_ (onRejected : string -> world -> world)
    (p : chain unit) : chain unit :=
  match p with
  | (JS.Fulfilled v, w) => (JS.Fulfilled v, w)
  | (JS.Rejected r, w) => (JS.Fulfilled tt, onRejected r w)
  end.

(** *** The handlers *)

(** [onChange] of the three controls, with [e.target.value = v]. *)
Definition onChange (f : field) (v : string) : world -> world :=
  match f with
  | Title => setTitle v
  | Content => setContent v
  | ImageUrl => setImageUrl v
  end.

(** The synchronous part of [handleGenerateOgImage]: [toPng] is called on
    [postRef.current] and the two reactions are attached; the handler
    returns with the promise pending. *)
Definition handleGenerateOgImage (w : world) : world :=
  snd (toPng (postRef_current w) w).

(** The rest of [handleGenerateOgImage], run when the promise of [toPng]
    settles with [o]:
    [.then((dataUrl) => setOgImageUrl(dataUrl))
     .catch((err) => console.error("Error generating image:", err))]. *)
Definition handleGenerateOgImage_settled (o : JS.settled string) (w : world)
  : chain unit :=
  catch_ (fun err => console_error "Error generating image:" err)
    (then_ (fun dataUrl => setOgImageUrl dataUrl) (o, w)).

(** ** The event loop *)

Inductive event : Type :=
| Change (f : field) (v : string)          (* the user edits a control *)
| Click                                    (* the user presses the button *)
| Settle (id : nat) (o : JS.settled string). (* a toPng promise settles *)

Definition forget (id : nat) (w : world) : world :=
  {| hooks := hooks w;
     head := head w;
     console := console w;
     pending := delete id (pending w);
     next_promise := next_promise w |}.

(** One turn of the event loop.  A promise settles once, and only if it
    exists: [Settle] of an identity that is not in flight is not a turn the
    browser can take. *)
Definition step (e : event) (w : world) : option world :=
  match e with
  | Change f v => Some (onChange f v w)
  | Click => Some (handleGenerateOgImage w)
  | Settle id o =>
      match pending w !! id with
      | Some _ => Some (snd (handleGenerateOgImage_settled o (forget id w)))
      | None => None
      end
  end.

Fixpoint run (es : list event) (w : world) : option world :=
  match es with
  | [] => Some w
  | e :: es' =>
      match step e w with
      | Some w' => run es' w'
      | None => None
      end
  end.

(** The page right after the component mounts. *)
Definition mount : world :=
  commit {| hooks := useState_init;
            head := [];
            console := [];
            pending := ∅;
            next_promise := 0 |}.

(** ** Observations used by the statements *)

(** The value of one of the three editable cells. *)
Definition get (f : field) (s : state) : string :=
  match f with
  | Title => title s
  | Content => content s
  | ImageUrl => imageUrl s
  end.

Definition field_eqb (f g : field) : bool :=
  match f, g with
  | Title, Title | Content, Content | ImageUrl, ImageUrl => true
  | _, _ => false
  end.

(** A head tag is the og:image entry when it is a [meta] element whose
    [property] is ["og:image"]. *)
Definition is_og_image (t : jsx) : bool :=
  match tag_of t, attr_of "property" t with
  | Some tag, Some (AStr p) => String.eqb tag "meta" && String.eqb p "og:image"
  | _, _ => false
  end.

Definition og_image_entries (hd : list jsx) : list jsx :=
  List.filter is_og_image hd.

(** The entry the component declares for a reference [d]. *)
Definition og_image_meta (d : string) : jsx :=
  JElem "meta" [("property", AStr "og:image"); ("content", AStr d)] [].

(** Modelled from the spec: [toPng] (html-to-image) is an external
    collaborator that "produces a Promise/future of an encoded-image data
    URI"; a data URI is text that starts with the scheme [data:]. *)
Definition is_data_uri (d : string) : bool := String.prefix "data:" d.

Definition is_success (e : event) : bool :=
  match e with
  | Settle _ (JS.Fulfilled _) => true
  | _ => false
  end.

Definition is_capture_event (e : event) : bool :=
  match e with
  | Change _ _ => false
  | Click | Settle _ _ => true
  end.

(** Every successful completion in the trace delivers a data URI. *)
Definition delivers_data_uris (es : list event) : bool :=
  forallb (fun e => match e with
                    | Settle _ (JS.Fulfilled d) => is_data_uri d
                    | _ => true
                    end) es.

(** The value delivered by the last successful completion of a trace, or
    [d0] when there is none. *)
Fixpoint last_fulfilled (es : list event) (d0 : string) : string :=
  match es with
  | [] => d0
  | Settle _ (JS.Fulfilled d) :: es' => last_fulfilled es' d
  | _ :: es' => last_fulfilled es' d0
  end.

(** The discipline the browser follows with promises, seen from outside:
    [inflight] is the set of promises in flight and [next] the identity of
    the next one; a click creates a promise, and a promise settles only
    while in flight, which takes it out. *)
Fixpoint well_scheduled (inflight : gset nat) (next : nat) (es : list event)
  : bool :=
  match es with
  | [] => true
  | Change _ _ :: es' => well_scheduled inflight next es'
  | Click :: es' => well_scheduled ({[next]} ∪ inflight) (S next) es'
  | Settle id _ :: es' =>
      bool_decide (id ∈ inflight) && well_scheduled (inflight ∖ {[id]}) next es'
  end.

(** The tags in the head are those the current state declares. *)
Definition head_in_sync (w : world) : Prop :=
  head w = declared_head (render (hooks w)).

(** *** Reading a rendered tree *)

(** The text of a node, as the DOM's [textContent]: the text children in
    document order. *)
Fixpoint text_content (t : jsx) : string :=
  match t with
  | JText s => s
  | JElem _ _ cs =>
      (fix go (l : list jsx) : string :=
         match l with
         | [] => ""
         | c :: l' => text_content c +:+ go l'
         end) cs
  end.

(** The first element with tag [tag], in document order. *)
Fixpoint find_tag (tag : string) (t : jsx) : option jsx :=
  match t with
  | JText _ => None
  | JElem tg _ cs =>
      if String.eqb tg tag then Some t
      else (fix go (l : list jsx) : option jsx :=
              match l with
              | [] => None
              | c :: l' =>
                  match find_tag tag c with
                  | Some e => Some e
                  | None => go l'
                  end
              end) cs
  end.

Definition attr_eqb (a b : attr) : bool :=
  match a, b with
  | AStr u, AStr v => String.eqb u v
  | AOnChange f, AOnChange g => field_eqb f g
  | AOnClickGenerate, AOnClickGenerate => true
  | ARefPost, ARefPost => true
  | _, _ => false
  end.

(** Whether an element carries attribute [name] with value [a]. *)
Definition has_attr (name : string) (a : attr) (t : jsx) : bool :=
  match attr_of name t with
  | Some b => attr_eqb a b
  | None => false
  end.

(** The elements of a tree that carry [name = a], in document order. *)
Fixpoint elements_with (name : string) (a : attr) (t : jsx) : list jsx :=
  match t with
  | JText _ => []
  | JElem _ _ cs =>
      (if has_attr name a t then [t] else [])
      ++ (fix go (l : list jsx) : list jsx :=
            match l with
            | [] => []
            | c :: l' => elements_with name a c ++ go l'
            end) cs
  end.

(** *** Reading a trace *)

Definition is_edit (e : event) : bool :=
  match e with
  | Change _ _ => true
  | _ => false
  end.

Definition is_click (e : event) : bool :=
  match e with
  | Click => true
  | _ => false
  end.

Definition is_settle (e : event) : bool :=
  match e with
  | Settle _ _ => true
  | _ => false
  end.

(** The value the last edit of control [f] in the trace carried, or [v0]
    when the trace does not edit [f]. *)
Fixpoint last_edit (f : field) (es : list event) (v0 : string) : string :=
  match es with
  | [] => v0
  | Change g v :: es' => last_edit f es' (if field_eqb g f then v else v0)
  | _ :: es' => last_edit f es' v0
  end.

(** The reasons of the rejected completions of a trace, in order. *)
Fixpoint rejections (es : list event) : list string :=
  match es with
  | [] => []
  | Settle _ (JS.Rejected r) :: es' => r :: rejections es'
  | _ :: es' => rejections es'
  end.

(** Promise identities in flight are older than the next one. *)
Definition ids_below_next (w : world) : Prop :=
  forall id : nat, is_Some (pending w !! id) -> id < next_promise w.

(** *** The document head in time

    Line 26 writes [<Helmet>] without [defer={false}], so Helmet does not
    write [document.head] in the turn that commits a render: it asks for an
    animation frame, and the write happens when the frame comes, with the
    tags of the latest commit.  A [page] is the world together with the
    head the document really has. *)







(** * Properties *)

(** ** Basic facts about the model *)

Lemma truthy_nonempty (s : string) : JS.truthy s = true <-> s <> "".
Proof. destruct s; simpl; split; intros; congruence. Qed.

Lemma truthy_data_uri (d : string) : is_data_uri d = true -> JS.truthy d = true.
Proof. destruct d; simpl; [discriminate | reflexivity]. Qed.

Lemma declared_head_render (s : state) :
  declared_head (render s) =
  if JS.truthy (ogImageUrl s) then [og_image_meta (ogImageUrl s)] else [].
Proof.
  unfold render, helmet, post_form, post_preview, js_and, og_image_meta.
  destruct (ogImageUrl s), (imageUrl s); reflexivity.
Qed.

Lemma og_image_entries_render (s : state) :
  og_image_entries (declared_head (render s)) =
  if JS.truthy (ogImageUrl s) then [og_image_meta (ogImageUrl s)] else [].
Proof.
  rewrite declared_head_render.
  destruct (JS.truthy (ogImageUrl s)); reflexivity.
Qed.



(** ** What one turn of the event loop does to each part of the world *)

Lemma settled_rejected (r : string) (w : world) :
  handleGenerateOgImage_settled (JS.Rejected r) w =
  (JS.Fulfilled tt, console_error "Error generating image:" r w).
Proof. reflexivity. Qed.

Lemma settled_fulfilled (d : string) (w : world) :
  handleGenerateOgImage_settled (JS.Fulfilled d) w =
  (JS.Fulfilled tt, setOgImageUrl d w).
Proof. reflexivity. Qed.

(** Whatever the outcome, the chain ends fulfilled: no rejection is left
    unhandled. *)
Lemma settled_handled (o : JS.settled string) (w : world) :
  fst (handleGenerateOgImage_settled o w) = JS.Fulfilled tt.
Proof. destruct o; reflexivity. Qed.

Lemma step_settle_inv (id : nat) (o : JS.settled string) (w w' : world) :
  step (Settle id o) w = Some w' ->
  is_Some (pending w !! id) /\
  w' = snd (handleGenerateOgImage_settled o (forget id w)).
Proof.
  simpl. destruct (pending w !! id) as [node|] eqn:E; [|discriminate].
  intros [= <-]. split; [eauto | reflexivity].
Qed.

Lemma step_ogImageUrl (e : event) (w w' : world) :
  step e w = Some w' ->
  ogImageUrl (hooks w') =
  match e with
  | Settle _ (JS.Fulfilled d) => d
  | _ => ogImageUrl (hooks w)
  end.
Proof.
  destruct e as [f v| |id o].
  - intros [= <-]. destruct f; reflexivity.
  - intros [= <-]. reflexivity.
  - intros H. apply step_settle_inv in H as [_ ->]. destruct o; reflexivity.
Qed.

Lemma step_in_sync (e : event) (w w' : world) :
  head_in_sync w -> step e w = Some w' -> head_in_sync w'.
Proof.
  unfold head_in_sync. intros Hs. destruct e as [f v| |id o].
  - intros [= <-]. destruct f; reflexivity.
  - intros [= <-]. exact Hs.
  - intros H. apply step_settle_inv in H as [_ ->].
    destruct o; [reflexivity | exact Hs].
Qed.

Lemma run_in_sync (es : list event) : forall w w' : world,
  head_in_sync w -> run es w = Some w' -> head_in_sync w'.
Proof.
  induction es as [|e es IH]; simpl; intros w w' Hs H.
  - injection H as <-. exact Hs.
  - destruct (step e w) as [w1|] eqn:E; [|discriminate].
    eapply IH; [|exact H]. eapply step_in_sync; eauto.
Qed.

Lemma run_ogImageUrl (es : list event) : forall w w' : world,
  run es w = Some w' ->
  ogImageUrl (hooks w') = last_fulfilled es (ogImageUrl (hooks w)).
Proof.
  induction es as [|e es IH]; simpl; intros w w' H.
  - injection H as <-. reflexivity.
  - destruct (step e w) as [w1|] eqn:E; [|discriminate].
    rewrite (IH _ _ H), (step_ogImageUrl _ _ _ E).
    destruct e as [f v| |id [d|r]]; reflexivity.
Qed.

Lemma run_app (es1 es2 : list event) : forall w : world,
  run (es1 ++ es2) w =
  match run es1 w with
  | Some w1 => run es2 w1
  | None => None
  end.
Proof.
  induction es1 as [|e es1 IH]; simpl; intros w; [reflexivity|].
  destruct (step e w); [apply IH | reflexivity].
Qed.

(** ** The claims *)

(** C8.  On mount the four state cells are initialised empty: [title],
    [content] and [imageUrl] are the empty string, and [ogImageUrl] is the
    empty string, which is how the component represents an absent
    reference (it is falsy, and no og:image entry is in the head). *)
Theorem mount_all_fields_empty :
  title (hooks mount) = "" /\
  content (hooks mount) = "" /\
  imageUrl (hooks mount) = "" /\
  ogImageUrl (hooks mount) = "" /\
  JS.truthy (ogImageUrl (hooks mount)) = false /\
  og_image_entries (head mount) = [].
Proof. repeat split. Qed.

(** C7.  An edit of one of the three controls replaces that cell with the
    event's value in the same turn, and leaves the other two editable
    cells, [ogImageUrl], the console, the promises in flight and the
    og:image entries the state declares as they were. *)
Theorem edit_replaces_only_its_field (f : field) (v : string) (w : world) :
  exists w' : world,
    step (Change f v) w = Some w' /\
    (forall g : field,
        get g (hooks w') = if field_eqb g f then v else get g (hooks w)) /\
    ogImageUrl (hooks w') = ogImageUrl (hooks w) /\
    console w' = console w /\
    pending w' = pending w /\
    next_promise w' = next_promise w /\
    head w' = declared_head (render (hooks w)).
Proof.
  exists (onChange f v w). split; [reflexivity|].
  split; [intros g; destruct f, g; reflexivity|].
  repeat split; try (destruct f; reflexivity).
  destruct f; cbn [onChange];
    unfold setTitle, setContent, setImageUrl, set_state, commit;
    cbn [head hooks]; rewrite !declared_head_render; reflexivity.
Qed.

(** C1.  When the promise of a capture in flight rejects, the turn is
    taken, the four state cells (so [ogImageUrl], absent or a previous
    data URI) and the head keep their values, and exactly one
    [console.error("Error generating image:", err)] is recorded. *)
Theorem failed_capture_logs_and_keeps_state
    (w : world) (id : nat) (node : jsx) (r : string) :
  pending w !! id = Some node ->
  exists w' : world,
    step (Settle id (JS.Rejected r)) w = Some w' /\
    ogImageUrl (hooks w') = ogImageUrl (hooks w) /\
    hooks w' = hooks w /\
    head w' = head w /\
    console w' = console w ++ [mkLog "Error generating image:" r].
Proof.
  intros Hp. eexists. split.
  - simpl. rewrite Hp. reflexivity.
  - repeat split.
Qed.

Lemma failed_capture_logs_and_keeps_state_witness :
  pending (handleGenerateOgImage mount) !! 0 = Some (post_preview useState_init) /\
  exists w' : world,
    step (Settle 0 (JS.Rejected "SecurityError: tainted canvas"))
      (handleGenerateOgImage mount) = Some w' /\
    ogImageUrl (hooks w') = ogImageUrl (hooks (handleGenerateOgImage mount)) /\
    hooks w' = hooks (handleGenerateOgImage mount) /\
    head w' = head (handleGenerateOgImage mount) /\
    console w' =
      console (handleGenerateOgImage mount)
      ++ [mkLog "Error generating image:" "SecurityError: tainted canvas"].
Proof.
  split; [reflexivity|].
  apply (failed_capture_logs_and_keeps_state
           (handleGenerateOgImage mount) 0 (post_preview useState_init)).
  reflexivity.
Defined.

(** C2.  When the promise of a capture in flight fulfils with a data URI
    [d], the turn is taken and [ogImageUrl] becomes [d] whatever it was
    before; [d] being a data URI, [ogImageUrl] is then non-empty, and the
    head carries the og:image entry for [d]. *)
Theorem successful_capture_stores_data_uri
    (w : world) (id : nat) (node : jsx) (d : string) :
  pending w !! id = Some node ->
  is_data_uri d = true ->
  exists w' : world,
    step (Settle id (JS.Fulfilled d)) w = Some w' /\
    ogImageUrl (hooks w') = d /\
    ogImageUrl (hooks w') <> "" /\
    JS.truthy (ogImageUrl (hooks w')) = true /\
    og_image_entries (head w') = [og_image_meta d].
Proof.
  intros Hp Hd. pose proof (truthy_data_uri d Hd) as Ht.
  eexists. split.
  - simpl. rewrite Hp. reflexivity.
  - cbn [snd handleGenerateOgImage_settled then_ catch_].
    unfold setOgImageUrl, set_state, commit. cbn [hooks head ogImageUrl with_ogImageUrl].
    repeat split; try assumption.
    + apply truthy_nonempty, Ht.
    + rewrite og_image_entries_render. cbn [ogImageUrl with_ogImageUrl].
      rewrite Ht. reflexivity.
Qed.

Lemma successful_capture_stores_data_uri_witness :
  pending (handleGenerateOgImage mount) !! 0 = Some (post_preview useState_init) /\
  is_data_uri "data:image/png;base64,iVBORw0KGgo=" = true /\
  exists w' : world,
    step (Settle 0 (JS.Fulfilled "data:image/png;base64,iVBORw0KGgo="))
      (handleGenerateOgImage mount) = Some w' /\
    ogImageUrl (hooks w') = "data:image/png;base64,iVBORw0KGgo=" /\
    ogImageUrl (hooks w') <> "" /\
    JS.truthy (ogImageUrl (hooks w')) = true /\
    og_image_entries (head w') =
      [og_image_meta "data:image/png;base64,iVBORw0KGgo="].
Proof.
  split; [reflexivity|]. split; [reflexivity|].
  apply (successful_capture_stores_data_uri
           (handleGenerateOgImage mount) 0 (post_preview useState_init));
    reflexivity.
Defined.

(** C9.  A turn of the capture operation, be it the click that starts it
    or the completion that ends it, fulfilled or rejected, leaves [title],
    [content] and [imageUrl] as they were: the state after it is the state
    before it with at most [ogImageUrl] replaced. *)
Theorem capture_leaves_editable_fields (e : event) (w w' : world) :
  is_capture_event e = true ->
  step e w = Some w' ->
  title (hooks w') = title (hooks w) /\
  content (hooks w') = content (hooks w) /\
  imageUrl (hooks w') = imageUrl (hooks w) /\
  hooks w' = with_ogImageUrl (ogImageUrl (hooks w')) (hooks w).
Proof.
  destruct e as [f v| |id o]; [discriminate| |]; intros _ H.
  - injection H as <-. destruct w as [[t c i og] hd cs p n]. repeat split.
  - apply step_settle_inv in H as [_ ->].
    destruct w as [[t c i og] hd cs p n], o; repeat split.
Qed.

Lemma capture_leaves_editable_fields_witness :
  is_capture_event (Settle 0 (JS.Rejected "SecurityError")) = true /\
  step (Settle 0 (JS.Rejected "SecurityError"))
    (handleGenerateOgImage (onChange Title "Hello" mount))
  = Some (console_error "Error generating image:" "SecurityError"
            (forget 0 (handleGenerateOgImage (onChange Title "Hello" mount)))) /\
  title (hooks (console_error "Error generating image:" "SecurityError"
            (forget 0 (handleGenerateOgImage (onChange Title "Hello" mount)))))
  = "Hello".
Proof.
  split; [reflexivity|]. split; [reflexivity|].
  apply (capture_leaves_editable_fields
           (Settle 0 (JS.Rejected "SecurityError"))
           (handleGenerateOgImage (onChange Title "Hello" mount))
           (console_error "Error generating image:" "SecurityError"
              (forget 0 (handleGenerateOgImage (onChange Title "Hello" mount))))
           eq_refl eq_refl).
Defined.

(** C5.  The preview region contains an [img] element exactly when
    [imageUrl] is non-empty; the node a capture hands to [toPng] is that
    region as rendered at the click, so a capture triggered right after
    [imageUrl] was set to the empty string is given a region with no [img]
    in it. *)
Theorem preview_has_img_iff_imageUrl (w : world) :
  (contains_tag "img" (post_preview (hooks w)) = true <-> imageUrl (hooks w) <> "") /\
  count_tag "img" (render (hooks w)) = count_tag "img" (post_preview (hooks w)) /\
  (exists node : jsx,
      pending (handleGenerateOgImage w) !! next_promise w = Some node /\
      node = post_preview (hooks w) /\
      contains_tag "img" node = JS.truthy (imageUrl (hooks w))) /\
  (exists node : jsx,
      pending (handleGenerateOgImage (onChange ImageUrl "" w))
        !! next_promise (onChange ImageUrl "" w) = Some node /\
      contains_tag "img" node = false).
Proof.
  assert (Hc : forall s : state,
             contains_tag "img" (post_preview s) = JS.truthy (imageUrl s)).
  { intros s. unfold post_preview, js_and. destruct (imageUrl s); reflexivity. }
  split; [|split; [|split]].
  - rewrite Hc. apply truthy_nonempty.
  - unfold render, helmet, post_form, post_preview, js_and.
    destruct (imageUrl (hooks w)), (ogImageUrl (hooks w)); reflexivity.
  - eexists. split; [apply lookup_insert_eq|]. split; [reflexivity|]. apply Hc.
  - eexists. split; [apply lookup_insert_eq|]. apply Hc.
Qed.

(** ** The og:image entry and the document head *)







(** ** Traces: which completions decide [ogImageUrl] *)

Lemma last_fulfilled_no_success (es : list event) : forall d0 : string,
  existsb is_success es = false -> last_fulfilled es d0 = d0.
Proof.
  induction es as [|e es IH]; simpl; intros d0 H; [reflexivity|].
  apply orb_false_elim in H as [He Hes].
  destruct e as [f v| |id [d|r]]; try discriminate; apply IH, Hes.
Qed.

Lemma last_fulfilled_cases (es : list event) : forall d0 : string,
  last_fulfilled es d0 = d0 \/
  exists (id : nat) (d : string),
    In (Settle id (JS.Fulfilled d)) es /\ last_fulfilled es d0 = d.
Proof.
  induction es as [|e es IH]; simpl; intros d0; [left; reflexivity|].
  destruct e as [f v| |id [d|r]].
  1,2,4: destruct (IH d0) as [H|(id' & d' & Hin & H)];
    [left; exact H | right; exists id', d'; split; [right; exact Hin | exact H]].
  destruct (IH d) as [H|(id' & d' & Hin & H)].
  - right. exists id, d. split; [left; reflexivity | exact H].
  - right. exists id', d'. split; [right; exact Hin | exact H].
Qed.

Lemma last_fulfilled_truthy (es : list event) : forall d0 : string,
  delivers_data_uris es = true ->
  JS.truthy d0 = true ->
  JS.truthy (last_fulfilled es d0) = true.
Proof.
  induction es as [|e es IH]; simpl; intros d0 Hd H0; [exact H0|].
  apply andb_prop in Hd as [He Hes].
  destruct e as [f v| |id [d|r]]; try (apply IH; assumption).
  apply IH; [exact Hes | apply truthy_data_uri, He].
Qed.

(** The promises in flight and the next identity evolve as the scheduling
    discipline says, so a well-scheduled trace runs to its end. *)
Lemma well_scheduled_runs (es : list event) : forall w : world,
  well_scheduled (dom (pending w)) (next_promise w) es = true ->
  exists w' : world, run es w = Some w'.
Proof.
  induction es as [|e es IH]; simpl; intros w H; [eauto|].
  destruct e as [f v| |id o].
  - apply (IH (onChange f v w)). destruct f; exact H.
  - apply (IH (handleGenerateOgImage w)).
    cbn [handleGenerateOgImage toPng snd pending next_promise].
    rewrite dom_insert_L. exact H.
  - apply andb_prop in H as [Hin Hrest].
    apply bool_decide_eq_true in Hin. apply elem_of_dom in Hin as [node Hn].
    cbn [step]. rewrite Hn. apply IH.
    destruct o; cbn [handleGenerateOgImage_settled then_ catch_ snd];
      cbn [setOgImageUrl set_state commit console_error forget pending next_promise];
      rewrite dom_delete_L; exact Hrest.
Qed.

(** C4.  Along any run whose successful completions deliver data URIs,
    [ogImageUrl] is moved only by successful capture completions: a run
    with none of them (edits, clicks and failed captures only) leaves it
    as it was, a final value that differs from the initial one is the
    data URI of a successful completion of the run, and a reference that
    is present at the start is present at the end. *)
Theorem ogImageUrl_changes_only_on_success (es : list event) (w w' : world) :
  run es w = Some w' ->
  delivers_data_uris es = true ->
  (existsb is_success es = false -> ogImageUrl (hooks w') = ogImageUrl (hooks w)) /\
  (ogImageUrl (hooks w') = ogImageUrl (hooks w) \/
   exists (id : nat) (d : string),
     In (Settle id (JS.Fulfilled d)) es /\ ogImageUrl (hooks w') = d) /\
  (ogImageUrl (hooks w) <> "" -> ogImageUrl (hooks w') <> "").
Proof.
  intros Hr Hd. rewrite (run_ogImageUrl es w w' Hr).
  split; [apply last_fulfilled_no_success|].
  split; [apply last_fulfilled_cases|].
  rewrite <- !truthy_nonempty. apply last_fulfilled_truthy, Hd.
Qed.

Lemma ogImageUrl_changes_only_on_success_witness :
  exists w' : world,
    run [Click; Settle 0 (JS.Fulfilled "data:image/png;base64,AAAA");
         Change Title "Hello"; Change ImageUrl "https://example.org/a.png";
         Click; Settle 1 (JS.Rejected "SecurityError"); Change Content "World"]
        mount = Some w' /\
    delivers_data_uris
      [Click; Settle 0 (JS.Fulfilled "data:image/png;base64,AAAA");
       Change Title "Hello"; Change ImageUrl "https://example.org/a.png";
       Click; Settle 1 (JS.Rejected "SecurityError"); Change Content "World"]
    = true /\
    (ogImageUrl (hooks w') = ogImageUrl (hooks mount) \/
     exists (id : nat) (d : string),
       In (Settle id (JS.Fulfilled d))
         [Click; Settle 0 (JS.Fulfilled "data:image/png;base64,AAAA");
          Change Title "Hello"; Change ImageUrl "https://example.org/a.png";
          Click; Settle 1 (JS.Rejected "SecurityError"); Change Content "World"] /\
       ogImageUrl (hooks w') = d).
Proof.
  eexists. split; [reflexivity|]. split; [reflexivity|].
  apply (ogImageUrl_changes_only_on_success
    [Click; Settle 0 (JS.Fulfilled "data:image/png;base64,AAAA");
     Change Title "Hello"; Change ImageUrl "https://example.org/a.png";
     Click; Settle 1 (JS.Rejected "SecurityError"); Change Content "World"]
    mount _ eq_refl eq_refl).
Defined.

(** C6.  Captures may overlap: any number of them can be in flight, and
    their completions arrive in any order the scheduling discipline
    allows.  Every such trace runs to its end, each completion's chain
    ends fulfilled (the rejection is caught, none escapes), and the final
    [ogImageUrl] is the data URI of the successful completion that came
    last in the trace, or the initial value when there was none. *)
Theorem overlapping_captures_last_write_wins (es : list event) (w : world) :
  well_scheduled (dom (pending w)) (next_promise w) es = true ->
  (exists w' : world,
      run es w = Some w' /\
      ogImageUrl (hooks w') = last_fulfilled es (ogImageUrl (hooks w))) /\
  (forall (o : JS.settled string) (w0 : world),
      fst (handleGenerateOgImage_settled o w0) = JS.Fulfilled tt).
Proof.
  intros H. split; [|apply settled_handled].
  destruct (well_scheduled_runs es w H) as [w' Hr].
  exists w'. split; [exact Hr | apply run_ogImageUrl, Hr].
Qed.

Lemma overlapping_captures_last_write_wins_witness :
  well_scheduled (dom (pending mount)) (next_promise mount)
    [Click; Click;
     Settle 1 (JS.Fulfilled "data:image/png;base64,BBBB");
     Settle 0 (JS.Fulfilled "data:image/png;base64,AAAA")] = true /\
  exists w' : world,
    run [Click; Click;
         Settle 1 (JS.Fulfilled "data:image/png;base64,BBBB");
         Settle 0 (JS.Fulfilled "data:image/png;base64,AAAA")] mount = Some w' /\
    ogImageUrl (hooks w') = "data:image/png;base64,AAAA".
Proof.
  assert (Hw : well_scheduled (dom (pending mount)) (next_promise mount)
    [Click; Click;
     Settle 1 (JS.Fulfilled "data:image/png;base64,BBBB");
     Settle 0 (JS.Fulfilled "data:image/png;base64,AAAA")] = true)
    by (vm_compute; reflexivity).
  split; [exact Hw|].
  exact (proj1 (overlapping_captures_last_write_wins _ mount Hw)).
Defined.



(** * Further properties of the component *)

(** ** The editable cells along a run *)

Lemma append_empty_r (s : string) : s +:+ "" = s.
Proof.
  induction s as [|a s IH]; [reflexivity|].
  change (String a (s +:+ "") = String a s). rewrite IH. reflexivity.
Qed.

Lemma step_get (f : field) (e : event) (w w' : world) :
  step e w = Some w' ->
  get f (hooks w') =
  match e with
  | Change g v => if field_eqb g f then v else get f (hooks w)
  | _ => get f (hooks w)
  end.
Proof.
  destruct e as [g v| |id o].
  - intros [= <-]. destruct g, f; reflexivity.
  - intros [= <-]. reflexivity.
  - intros H. apply step_settle_inv in H as [_ ->]. destruct o, f; reflexivity.
Qed.

Lemma run_get (f : field) (es : list event) : forall w w' : world,
  run es w = Some w' ->
  get f (hooks w') = last_edit f es (get f (hooks w)).
Proof.
  induction es as [|e es IH]; simpl; intros w w' H.
  - injection H as <-. reflexivity.
  - destruct (step e w) as [w1|] eqn:E; [|discriminate].
    rewrite (IH _ _ H), (step_get f _ _ _ E).
    destruct e as [g v| |id o]; reflexivity.
Qed.

(** What the preview region shows, read back from the tree. *)
Lemma preview_reads_state (s : state) :
  text_content <$> find_tag "h2" (post_preview s) = Some (title s) /\
  text_content <$> find_tag "p" (post_preview s) = Some (content s) /\
  find_tag "img" (post_preview s) ≫= attr_of "src" =
    (if JS.truthy (imageUrl s) then Some (AStr (imageUrl s)) else None).
Proof.
  unfold post_preview, js_and. repeat split.
  - cbn -[String.append]. rewrite append_empty_r. reflexivity.
  - cbn -[String.append]. rewrite append_empty_r. reflexivity.
  - destruct (imageUrl s); reflexivity.
Qed.

(** X1.  The preview never lags behind the form: after any run, its
    heading shows the value of the last edit of the title control (the
    earlier title when the run has none), its paragraph that of the last
    edit of the content control, and its image, present only for a
    non-empty value, has the value of the last edit of the image URL
    control as its source. *)
Theorem preview_shows_last_edits (es : list event) (w w' : world) :
  run es w = Some w' ->
  text_content <$> find_tag "h2" (post_preview (hooks w'))
    = Some (last_edit Title es (title (hooks w))) /\
  text_content <$> find_tag "p" (post_preview (hooks w'))
    = Some (last_edit Content es (content (hooks w))) /\
  find_tag "img" (post_preview (hooks w')) ≫= attr_of "src"
    = (if JS.truthy (last_edit ImageUrl es (imageUrl (hooks w)))
       then Some (AStr (last_edit ImageUrl es (imageUrl (hooks w))))
       else None).
Proof.
  intros Hr.
  pose proof (run_get Title es w w' Hr) as Ht.
  pose proof (run_get Content es w w' Hr) as Hc.
  pose proof (run_get ImageUrl es w w' Hr) as Hi.
  cbn [get] in Ht, Hc, Hi. rewrite <- Ht, <- Hc, <- Hi.
  apply preview_reads_state.
Qed.

Lemma preview_shows_last_edits_witness :
  exists w' : world,
    run [Change Title "Hel"; Click; Change Title "Hello";
         Change ImageUrl "https://example.org/a.png";
         Settle 0 (JS.Rejected "SecurityError"); Change ImageUrl ""] mount
    = Some w' /\
    text_content <$> find_tag "h2" (post_preview (hooks w')) = Some "Hello" /\
    text_content <$> find_tag "p" (post_preview (hooks w')) = Some "" /\
    find_tag "img" (post_preview (hooks w')) ≫= attr_of "src" = None.
Proof.
  eexists. split; [reflexivity|].
  apply (preview_shows_last_edits
    [Change Title "Hel"; Click; Change Title "Hello";
     Change ImageUrl "https://example.org/a.png";
     Settle 0 (JS.Rejected "SecurityError"); Change ImageUrl ""] mount _ eq_refl).
Defined.

(** X2.  Each control of the form is bound to its own cell: in every
    state exactly one element carries the [onChange] handler of a given
    field, that element's [value] is the field's current value, and
    exactly one element, the button, carries [handleGenerateOgImage] as
    its [onClick]; the button shows no state and is rendered whatever the
    state is. *)
Theorem form_controls_bound_to_cells (s : state) (f : field) :
  (exists c : jsx,
      elements_with "onChange" (AOnChange f) (render s) = [c] /\
      attr_of "value" c = Some (AStr (get f s))) /\
  elements_with "onClick" AOnClickGenerate (render s)
    = [JElem "button" [("onClick", AOnClickGenerate)] [JText "Generate OG Image"]].
Proof.
  destruct s as [t c i og].
  unfold render, helmet, post_form, post_preview, js_and.
  destruct og, i, f; (split; [eexists; split; reflexivity | reflexivity]).
Qed.

(** X3.  Edits compose by overwriting: a second edit of the same control
    makes the first one unobservable, and edits of different controls can
    be swapped. *)
Theorem edits_overwrite_and_commute (f g : field) (u v : string) (w : world) :
  onChange f v (onChange g u w) =
  if field_eqb f g then onChange f v w else onChange g u (onChange f v w).
Proof. destruct f, g; reflexivity. Qed.

(** ** Captures in flight *)

Lemma mount_ids_below_next : ids_below_next mount.
Proof.
  intros id [node H]. change (pending mount) with (∅ : gmap nat jsx) in H.
  rewrite lookup_empty in H. discriminate.
Qed.

Lemma run_in_flight (es : list event) : forall w w' : world,
  ids_below_next w ->
  run es w = Some w' ->
  size (pending w') + length (List.filter is_settle es)
    = size (pending w) + length (List.filter is_click es) /\
  next_promise w' = next_promise w + length (List.filter is_click es).
Proof.
  induction es as [|e es IH]; simpl; intros w w' Hb H.
  - injection H as <-. lia.
  - destruct e as [f v| |id o]; cbn [step] in H; simpl.
    + destruct (IH (onChange f v w) w') as [H1 H2];
        [destruct f; exact Hb | exact H |].
      destruct f; exact (conj H1 H2).
    + assert (Hfresh : pending w !! next_promise w = None).
      { destruct (pending w !! next_promise w) as [node|] eqn:E; [|reflexivity].
        pose proof (Hb _ (ex_intro _ node E)). lia. }
      destruct (IH (handleGenerateOgImage w) w') as [H1 H2]; [|exact H|].
      * intros id [node Hn]. cbn in Hn |- *.
        destruct (decide (next_promise w = id)) as [->|Hne]; [lia|].
        rewrite lookup_insert_ne in Hn by exact Hne.
        pose proof (Hb _ (ex_intro _ node Hn)). lia.
      * cbn in H1, H2. rewrite map_size_insert_None in H1 by exact Hfresh. lia.
    + destruct (pending w !! id) as [node|] eqn:E; [|discriminate].
      assert (Hpos : size (pending w) <> 0).
      { intros Hz. apply map_size_empty_inv in Hz. rewrite Hz, lookup_empty in E.
        discriminate. }
      destruct (IH (snd (handleGenerateOgImage_settled o (forget id w))) w')
        as [H1 H2]; [|exact H|].
      * intros id' [node' Hn]. destruct o; cbn in Hn |- *;
          apply lookup_delete_Some in Hn as [_ Hn]; apply Hb; eauto.
      * assert (Hsz : size (pending (snd (handleGenerateOgImage_settled o (forget id w))))
                      = pred (size (pending w))).
        { destruct o; cbn; apply map_size_delete_Some; eauto. }
        assert (Hnx : next_promise (snd (handleGenerateOgImage_settled o (forget id w)))
                      = next_promise w) by (destruct o; reflexivity).
        rewrite Hsz in H1. rewrite Hnx in H2. lia.
Qed.

(** X4.  Nothing guards the button: every click calls [toPng], whether or
    not a capture is already in flight.  After any run from mount the
    captures in flight are exactly the clicks whose promise has not yet
    settled, and as many promises were created as there were clicks. *)
Theorem every_click_starts_a_capture (es : list event) (w : world) :
  run es mount = Some w ->
  size (pending w) + length (List.filter is_settle es)
    = length (List.filter is_click es) /\
  next_promise w = length (List.filter is_click es).
Proof.
  intros Hr.
  destruct (run_in_flight es mount w mount_ids_below_next Hr) as [H1 H2].
  change (size (pending mount)) with (size (∅ : gmap nat jsx)) in H1.
  rewrite map_size_empty in H1. exact (conj H1 H2).
Qed.

Lemma every_click_starts_a_capture_witness :
  exists w : world,
    run [Click; Click; Click; Settle 1 (JS.Rejected "SecurityError")] mount
    = Some w /\
    size (pending w) + 1 = 3 /\
    next_promise w = 3.
Proof.
  eexists. split; [reflexivity|].
  apply (every_click_starts_a_capture
           [Click; Click; Click; Settle 1 (JS.Rejected "SecurityError")] _ eq_refl).
Defined.

(** X5.  The console receives exactly the failures: after any run it holds
    what it held before, followed by one entry per rejected completion, in
    the order the rejections arrived, each with the message
    ["Error generating image:"] and the rejection's reason; edits, clicks
    and successful completions log nothing. *)
Theorem console_records_exactly_the_failures (es : list event) (w w' : world) :
  run es w = Some w' ->
  console w' = console w ++ map (mkLog "Error generating image:") (rejections es).
Proof.
  revert w. induction es as [|e es IH]; simpl; intros w H.
  - injection H as <-. rewrite app_nil_r. reflexivity.
  - destruct (step e w) as [w1|] eqn:E; [|discriminate].
    rewrite (IH _ H). destruct e as [f v| |id [d|r]].
    + injection E as <-. destruct f; reflexivity.
    + injection E as <-. reflexivity.
    + apply step_settle_inv in E as [_ ->]. reflexivity.
    + apply step_settle_inv in E as [_ ->]. cbn. rewrite <- app_assoc. reflexivity.
Qed.

Lemma console_records_exactly_the_failures_witness :
  exists w' : world,
    run [Click; Click; Click;
         Settle 2 (JS.Rejected "second");
         Settle 0 (JS.Fulfilled "data:image/png;base64,AAAA");
         Change Title "Hello";
         Settle 1 (JS.Rejected "first")] mount = Some w' /\
    console w' = [mkLog "Error generating image:" "second";
                  mkLog "Error generating image:" "first"].
Proof.
  eexists. split; [reflexivity|].
  apply (console_records_exactly_the_failures
    [Click; Click; Click;
     Settle 2 (JS.Rejected "second");
     Settle 0 (JS.Fulfilled "data:image/png;base64,AAAA");
     Change Title "Hello";
     Settle 1 (JS.Rejected "first")] mount _ eq_refl).
Defined.

(** ** What a capture is given *)

Lemma last_edit_no_edit (f : field) (es : list event) : forall v0 : string,
  existsb is_edit es = false -> last_edit f es v0 = v0.
Proof.
  induction es as [|e es IH]; simpl; intros v0 H; [reflexivity|].
  destruct e as [g v| |id o]; [discriminate | apply IH, H | apply IH, H].
Qed.

Lemma post_preview_ext (s s' : state) :
  (forall f : field, get f s = get f s') -> post_preview s = post_preview s'.
Proof.
  intros H. pose proof (H Title) as Ht. pose proof (H Content) as Hc.
  pose proof (H ImageUrl) as Hi. cbn [get] in Ht, Hc, Hi.
  unfold post_preview. rewrite Ht, Hc, Hi. reflexivity.
Qed.

(** X6.  The captured region does not depend on earlier captures: after a
    run without edits, whatever was clicked, fulfilled or rejected in it,
    the next click hands [toPng] the very region the page showed before
    the run. *)
Theorem recapture_without_edit_same_region (es : list event) (w w' : world) :
  run es w = Some w' ->
  existsb is_edit es = false ->
  pending (handleGenerateOgImage w') !! next_promise w' = Some (postRef_current w).
Proof.
  intros Hr He. cbn [handleGenerateOgImage toPng snd pending].
  rewrite lookup_insert_eq. f_equal. apply post_preview_ext. intros f.
  rewrite (run_get f es w w' Hr). apply last_edit_no_edit, He.
Qed.

Lemma recapture_without_edit_same_region_witness :
  exists w' : world,
    run [Click; Settle 0 (JS.Fulfilled "data:image/png;base64,AAAA"); Click;
         Settle 1 (JS.Rejected "SecurityError")]
        (onChange Title "Hello" mount) = Some w' /\
    existsb is_edit
      [Click; Settle 0 (JS.Fulfilled "data:image/png;base64,AAAA"); Click;
       Settle 1 (JS.Rejected "SecurityError")] = false /\
    pending (handleGenerateOgImage w') !! next_promise w'
      = Some (postRef_current (onChange Title "Hello" mount)).
Proof.
  eexists. split; [reflexivity|]. split; [reflexivity|].
  apply (recapture_without_edit_same_region
    [Click; Settle 0 (JS.Fulfilled "data:image/png;base64,AAAA"); Click;
     Settle 1 (JS.Rejected "SecurityError")]
    (onChange Title "Hello" mount) _ eq_refl eq_refl).
Defined.

(** X7.  An edit and the completion of a capture do not interfere: taking
    them in either order leads to the same page, and when the completion
    cannot be taken (its promise is not in flight) neither order runs. *)
Theorem edit_and_completion_commute
    (f : field) (v : string) (id : nat) (o : JS.settled string) (w : world) :
  run [Change f v; Settle id o] w = run [Settle id o; Change f v] w.
Proof.
  cbn [run step].
  replace (pending (onChange f v w)) with (pending w) by (destruct f; reflexivity).
  destruct (pending w !! id) as [node|]; [|reflexivity].
  destruct o, f; reflexivity.
Qed.

(** X8.  What the user types is rendered as text or as an attribute value,
    never as markup: the number of elements of any tag on the page depends
    only on whether [imageUrl] and [ogImageUrl] are empty, not on the
    characters of any field. *)
Theorem page_structure_depends_only_on_gates (s1 s2 : state) (tag : string) :
  JS.truthy (imageUrl s1) = JS.truthy (imageUrl s2) ->
  JS.truthy (ogImageUrl s1) = JS.truthy (ogImageUrl s2) ->
  count_tag tag (render s1) = count_tag tag (render s2).
Proof.
  destruct s1 as [t1 c1 i1 o1], s2 as [t2 c2 i2 o2].
  cbn [imageUrl ogImageUrl]. intros Hi Ho.
  unfold render, helmet, post_form, post_preview, js_and.
  cbn [imageUrl ogImageUrl title content]. rewrite Hi, Ho.
  destruct (JS.truthy i2), (JS.truthy o2); reflexivity.
Qed.

Lemma page_structure_depends_only_on_gates_witness :
  JS.truthy (imageUrl (mkState "<img src=x>" "<script>" "a.png" "")) =
  JS.truthy (imageUrl (mkState "Hello" "World" "https://example.org/b.png" "")) /\
  JS.truthy (ogImageUrl (mkState "<img src=x>" "<script>" "a.png" "")) =
  JS.truthy (ogImageUrl (mkState "Hello" "World" "https://example.org/b.png" "")) /\
  count_tag "img" (render (mkState "<img src=x>" "<script>" "a.png" "")) =
  count_tag "img" (render (mkState "Hello" "World" "https://example.org/b.png" "")).
Proof.
  split; [reflexivity|]. split; [reflexivity|].
  apply (page_structure_depends_only_on_gates
           (mkState "<img src=x>" "<script>" "a.png" "")
           (mkState "Hello" "World" "https://example.org/b.png" "")
           "img" eq_refl eq_refl).
Defined.
